(** * CivicTrack backend: the issue listing, moderation and analytics routes

    A shallow embedding of [server.js]: the haversine distance [getDistance],
    the handler of [GET /api/issues] with its spam, status, category and
    radius gates, the handlers of [GET /api/admin/issues] and
    [GET /api/admin/analytics], and the routes that write to the database:
    [POST /api/login], [POST /api/issues] and [POST /api/issues/:id/flag].

    JavaScript numbers are IEEE-754 binary64 values: they are modelled by
    Rocq's primitive floats, whose operations are specified by [SpecFloat].
    The built-ins the server calls ([parseFloat], [Math.sin], [Math.cos],
    [Math.atan2], [Math.sqrt]) belong to the JavaScript engine, not to the
    repository: they are the fields of a [Runtime] record over which the
    definitions are parameterised.

    The file has two parts: the definitions (the engine interface, the
    distance, a model engine, the table and the handlers, the notions the
    statements use, sample data), then the proofs. *)

From Stdlib Require Import ZArith Bool Ascii String Floats Uint63 Lia.
From stdpp Require Import base list strings gmap.

(** * Part I: definitions *)

Local Open Scope float_scope.

(** ** The JavaScript engine's built-ins *)

(** The numeric built-ins called by [server.js].  ECMAScript leaves the
    trigonometric functions implementation-approximated, so nothing is
    assumed of them beyond their types. *)
Record Runtime := {
  parseFloat : string -> float;
  Math_sin : float -> float;
  Math_cos : float -> float;
  Math_atan2 : float -> float -> float;
  Math_sqrt : float -> float
}.

(** [Math.PI]: the binary64 value nearest to pi, 3.141592653589793. *)
Definition Math_PI : float := 0x1.921fb54442d18p+1.

(** ** [getDistance]: the haversine formula *)

Section Distance.
Context (rt : Runtime).

Definition getDistance (lat1 lng1 lat2 lng2 : float) : float :=
  let R := 6371 in
  let dLat := (lat2 - lat1) * Math_PI / 180 in
  let dLng := (lng2 - lng1) * Math_PI / 180 in
  let a := Math_sin rt (dLat / 2) * Math_sin rt (dLat / 2) +
           Math_cos rt (lat1 * Math_PI / 180) * Math_cos rt (lat2 * Math_PI / 180) *
           Math_sin rt (dLng / 2) * Math_sin rt (dLng / 2) in
  let c := 2 * Math_atan2 rt (Math_sqrt rt a) (Math_sqrt rt (1 - a)) in
  R * c.

(** The half-angle sine of a coordinate difference [d], as [getDistance]
    computes it from [dLat] and [dLng]. *)
Definition halfSin (d : float) : float := Math_sin rt (d * Math_PI / 180 / 2).

(** [Math.sin] is an odd function in this engine (fdlibm's [sin], which V8
    uses, negates its result with its argument). *)
Definition sin_odd : Prop := forall x, Math_sin rt (- x) = - Math_sin rt x.

(** The special cases ECMAScript fixes for these built-ins and that
    [getDistance] can meet: the sine of an infinity is NaN, and NaN goes
    through [Math.sqrt] and [Math.atan2]. *)
Definition nan_cases : Prop :=
  Math_sin rt infinity = nan
  /\ Math_sqrt rt nan = nan
  /\ forall x, Math_atan2 rt nan x = nan.

End Distance.

(** ** A model engine

    An executable instance of [Runtime], used to run the handlers on concrete
    requests.  [parseFloat] reads the longest prefix that is a decimal literal
    and rounds it to the nearest binary64 value (literals of a thousand
    digits or more apart); the trigonometric functions are Taylor
    polynomials, meant for arguments of magnitude up to pi (every argument
    [getDistance] produces from coordinates in range), and are NaN at NaN and
    at the infinities, as ECMAScript requires of [Math.sin] and [Math.cos].
    The theorems of Part II hold for every engine; this one gives them
    concrete instances. *)

Module Model.

(** *** [parseFloat] *)

Definition digit_of (c : ascii) : option Z :=
  let n := Z.of_N (N_of_ascii c) in
  if ((48 <=? n) && (n <=? 57))%Z then Some (n - 48)%Z else None.

(** The digits at the head of [cs], added to [acc]; their number, added to
    [n]; the rest of [cs]. *)
Fixpoint read_digits (cs : list ascii) (acc : Z) (n : Z) : Z * Z * list ascii :=
  match cs with
  | c :: cs' =>
      match digit_of c with
      | Some d => read_digits cs' (10 * acc + d)%Z (n + 1)%Z
      | None => (acc, n, cs)
      end
  | [] => (acc, n, [])
  end.

Definition is_white (c : ascii) : bool :=
  let n := N_of_ascii c in
  (n =? 32)%N || (n =? 9)%N || (n =? 10)%N || (n =? 11)%N || (n =? 12)%N || (n =? 13)%N.

Fixpoint trim_start (cs : list ascii) : list ascii :=
  match cs with
  | c :: cs' => if is_white c then trim_start cs' else cs
  | [] => []
  end.

(** The exponent part [e], [e+] or [e-] and digits, when it is there and
    well formed; 0 otherwise. *)
Definition read_exponent (cs : list ascii) : Z :=
  match cs with
  | c :: r =>
      if (Ascii.eqb c "e" || Ascii.eqb c "E")%char then
        let '(neg, r') :=
          match r with
          | s :: r'' =>
              if Ascii.eqb s "-"%char then (true, r'')
              else if Ascii.eqb s "+"%char then (false, r'') else (false, r)
          | [] => (false, r)
          end in
        let '(e, n, _) := read_digits r' 0 0 in
        if (n =? 0)%Z then 0%Z else if neg then (- e)%Z else e
      else 0%Z
  | [] => 0%Z
  end.

(** The pair [(m, e)] of an unsigned literal of value [m * 10^e], or [None]
    when no prefix of [cs] is a literal. *)
Definition read_decimal (cs : list ascii) : option (Z * Z) :=
  let '(ip, ni, r1) := read_digits cs 0 0 in
  let '(m, nf, r2) :=
    match r1 with
    | c :: r => if Ascii.eqb c "."%char then read_digits r ip 0 else (ip, 0%Z, r1)
    | [] => (ip, 0%Z, r1)
    end in
  if (ni + nf =? 0)%Z then None else Some (m, (read_exponent r2 - nf)%Z).

(** [m * 10^e] for [m > 0], rounded to nearest, ties to even. *)
Definition round_decimal (neg : bool) (m e : Z) : spec_float :=
  if (0 <=? e)%Z then
    binary_normalize prec emax (if neg then - (m * 10 ^ e) else m * 10 ^ e)%Z 0 false
  else
    let '(mz, ez, lz) := SFdiv_core_binary prec emax m 0 (10 ^ (- e))%Z 0 in
    binary_round_aux prec emax neg mz ez lz.

Definition starts_with (p cs : list ascii) : bool :=
  bool_decide (take (length p) cs = p).

Definition parse_unsigned (neg : bool) (cs : list ascii) : float :=
  if starts_with (list_ascii_of_string "Infinity") cs then
    (if neg then neg_infinity else infinity)
  else
    match read_decimal cs with
    | None => nan
    | Some (m, e) =>
        if (m =? 0)%Z then (if neg then neg_zero else zero)
        else if (400 <? e)%Z then (if neg then neg_infinity else infinity)
        else if (e <? -2000)%Z then (if neg then neg_zero else zero)
        else SF2Prim (round_decimal neg m e)
    end.

Definition parseFloat (s : string) : float :=
  match trim_start (list_ascii_of_string s) with
  | c :: r =>
      if Ascii.eqb c "-"%char then parse_unsigned true r
      else if Ascii.eqb c "+"%char then parse_unsigned false r
      else parse_unsigned false (c :: r)
  | [] => nan
  end.

(** *** Trigonometry *)

(** [1 - y/d1 * (1 - y/d2 * (...))]: the nested form of an alternating
    Taylor series in [y = x^2]. *)
Fixpoint nest (ds : list float) (y : float) : float :=
  match ds with
  | [] => 1
  | d :: ds' => 1 - y / d * nest ds' y
  end.

Definition sin_dens : list float :=
  [6; 20; 42; 72; 110; 156; 210; 272; 342; 420; 506; 600; 702; 812].
Definition cos_dens : list float :=
  [2; 12; 30; 56; 90; 132; 182; 240; 306; 380; 462; 552; 650; 756].

Definition sin (x : float) : float :=
  if is_infinity x then nan else x * nest sin_dens (x * x).

Definition cos (x : float) : float :=
  if is_infinity x then nan else nest cos_dens (x * x).

(** [1/d1 - y * (1/d2 - y * ...)]: the arctangent series in [y = t^2]. *)
Fixpoint alt (ds : list float) (y : float) : float :=
  match ds with
  | [] => 0
  | d :: ds' => 1 / d - y * alt ds' y
  end.

Definition atan_dens : list float := [1; 3; 5; 7; 9; 11; 13; 15; 17; 19; 21; 23; 25].

(** Halving the angle: [atan t = 2 * atan (t / (1 + sqrt (1 + t^2)))]. *)
Definition half_angle (t : float) : float := t / (1 + PrimFloat.sqrt (1 + t * t)).

(** Arctangent of [0 <= t <= 1]. *)
Definition atan_unit (t : float) : float :=
  let u := half_angle (half_angle t) in
  4 * (u * alt atan_dens (u * u)).

Definition atan_pos (t : float) : float :=
  if 1 <? t then Math_PI / 2 - atan_unit (1 / t) else atan_unit t.

Definition atan (t : float) : float :=
  if t <? 0 then - atan_pos (- t) else atan_pos t.

Definition atan2 (y x : float) : float :=
  if is_nan x || is_nan y then nan
  else if 0 <? x then atan (y / x)
  else if x <? 0 then (if y <? 0 then atan (y / x) - Math_PI else atan (y / x) + Math_PI)
  else if 0 <? y then Math_PI / 2
  else if y <? 0 then - (Math_PI / 2)
  else y.

Definition runtime : Runtime :=
  Build_Runtime parseFloat sin cos atan2 PrimFloat.sqrt.

End Model.

Local Close Scope float_scope.

(** ** The [issues] table and its queries *)

(** A row of [issues]: [flags] is the SQLite INTEGER column that
    [POST /api/issues/:id/flag] increments, starting from its default 0. *)
Module Issue.
Record t := {
  id : string;
  title : string;
  description : string;
  category : string;
  status : string;
  lat : float;
  lng : float;
  userId : string;
  flags : Z;
  createdAt : string
}.
End Issue.

(** The conditions the handlers put in a WHERE clause. *)
Inductive Cond :=
| FlagsLt (n : Z)
| FlagsGe (n : Z)
| StatusEq (s : string)
| CategoryEq (c : string).

Definition holds (i : Issue.t) (c : Cond) : bool :=
  match c with
  | FlagsLt n => (Issue.flags i <? n)%Z
  | FlagsGe n => (n <=? Issue.flags i)%Z
  | StatusEq s => String.eqb (Issue.status i) s
  | CategoryEq s => String.eqb (Issue.category i) s
  end.

(** [db.all('SELECT * FROM issues WHERE c1 AND c2 ...')]: the rows that
    satisfy every condition, in the order of the table scan.  The database
    is in memory and the query well formed: the error branch of the callback
    (status 500) is not modelled. *)
Definition db_all (conds : list Cond) (db : list Issue.t) : list Issue.t :=
  filter (λ i, forallb (holds i) conds = true) db.

(** [SELECT category, COUNT( * ) as count FROM issues GROUP BY category]:
    one row per category that occurs, with the number of its issues. *)
Definition group_count (db : list Issue.t) : gmap string nat :=
  foldr (λ i m, <[Issue.category i := S (default 0 (m !! Issue.category i))]> m) ∅ db.

(** ** Requests and responses *)

(** The query string of [GET /api/issues]: each parameter is absent
    ([undefined]) or a string. *)
Module Query.
Record t := {
  status : option string;
  category : option string;
  distance : option string;
  lat : option string;
  lng : option string
}.
Definition empty : t := Build_t None None None None None.
End Query.

(** [res.json(body)] or [res.status(code).json({ error })]. *)
Inductive Response (A : Type) :=
| Json (body : A)
| Status (code : Z) (error : string).
Arguments Json {A} body.
Arguments Status {A} code error.

(** A handler has answered ([return res...]) or goes on. *)
Inductive Step (A B : Type) :=
| Return (r : Response A)
| Continue (b : B).
Arguments Return {A B} r.
Arguments Continue {A B} b.

#[global] Instance step_bind {A} : MBind (Step A) := λ B C k s,
  match s with
  | Return r => Return r
  | Continue b => k b
  end.

Definition validStatuses : list string := ["Reported"; "In Progress"; "Resolved"].
Definition validCategories : list string :=
  ["Roads"; "Lighting"; "Water Supply"; "Cleanliness"; "Public Safety"; "Obstructions"].

(** [Array.prototype.includes] on an array of strings. *)
Definition includes (l : list string) (s : string) : bool := existsb (String.eqb s) l.

(** JavaScript truthiness of a parameter: [undefined] and the empty string
    are falsy. *)
Definition truthy (v : option string) : bool :=
  match v with
  | Some s => negb (String.eqb s "")
  | None => false
  end.

(** ** The handlers *)

Section Handlers.
Context (rt : Runtime).

(** [parseFloat] of a parameter; [parseFloat(undefined)] is NaN. *)
Definition parseFloatParam (v : option string) : float :=
  match v with
  | Some s => parseFloat rt s
  | None => nan
  end.

(** [parseFloat(distance || 5)]: the number 5 is converted to the string
    ["5"] and read back as 5. *)
Definition radiusKm (distance : option string) : float :=
  if truthy distance then parseFloatParam distance else 5%float.

(** [if (status && status !== 'all') { ... }] *)
Definition statusClause (status : option string) (query : list Cond)
  : Step (list Issue.t) (list Cond) :=
  match status with
  | Some s =>
      if truthy status && negb (String.eqb s "all") then
        if negb (includes validStatuses s) then Return (Status 400 "Invalid status")
        else Continue (query ++ [StatusEq s])
      else Continue query
  | None => Continue query
  end.

(** [if (category && category !== 'all') { ... }] *)
Definition categoryClause (category : option string) (query : list Cond)
  : Step (list Issue.t) (list Cond) :=
  match category with
  | Some c =>
      if truthy category && negb (String.eqb c "all") then
        if negb (includes validCategories c) then Return (Status 400 "Invalid category")
        else Continue (query ++ [CategoryEq c])
      else Continue query
  | None => Continue query
  end.

(** The callback of [rows.filter]. *)
Definition inRadius (q : Query.t) (issue : Issue.t) : bool :=
  if negb (truthy (Query.lat q)) || negb (truthy (Query.lng q)) then true
  else
    let dist := getDistance rt (parseFloatParam (Query.lat q)) (parseFloatParam (Query.lng q))
                  (Issue.lat issue) (Issue.lng issue) in
    (dist <=? radiusKm (Query.distance q))%float.

Definition getIssuesSteps (db : list Issue.t) (q : Query.t)
  : Step (list Issue.t) (list Issue.t) :=
  let query := [FlagsLt 3] in
  query ← statusClause (Query.status q) query;
  query ← categoryClause (Query.category q) query;
  let rows := db_all query db in
  let filtered := filter (λ issue, inRadius q issue = true) rows in
  Continue filtered.

(** [GET /api/issues] *)
Definition getIssues (db : list Issue.t) (q : Query.t) : Response (list Issue.t) :=
  match getIssuesSteps db q with
  | Return r => r
  | Continue filtered => Json filtered
  end.

End Handlers.

(** [GET /api/admin/issues] *)
Definition getAdminIssues (db : list Issue.t) : Response (list Issue.t) :=
  Json (db_all [FlagsGe 3] db).

(** [GET /api/admin/analytics]: the rows [{category, count}]. *)
Definition getAnalytics (db : list Issue.t) : Response (list (string * nat)) :=
  Json (map_to_list (group_count db)).

(** ** Notions used by the statements *)

(** The rows a response carries; an error response carries none. *)
Definition returned {A} (r : Response (list A)) : list A :=
  match r with
  | Json body => body
  | Status _ _ => []
  end.

Definition isError {A} (r : Response A) : Prop :=
  match r with
  | Json _ => False
  | Status _ _ => True
  end.

(** The value a parameter restricts to: it passes the guard
    [v && v !== 'all']. *)
Definition requested (v : option string) : option string :=
  match v with
  | Some s => if truthy v && negb (String.eqb s "all") then Some s else None
  | None => None
  end.

Definition rejected (valid : list string) (v : option string) : bool :=
  match requested v with
  | Some s => negb (includes valid s)
  | None => false
  end.

(** The WHERE clause the handler has built when it runs the query. *)
Definition clauses (q : Query.t) : list Cond :=
  [FlagsLt 3]
    ++ match requested (Query.status q) with Some s => [StatusEq s] | None => [] end
    ++ match requested (Query.category q) with Some c => [CategoryEq c] | None => [] end.

(** The spam, status and category gates, as a predicate on an issue. *)
Definition passesGates (q : Query.t) (i : Issue.t) : Prop :=
  (Issue.flags i < 3)%Z
  ∧ (∀ s, requested (Query.status q) = Some s → Issue.status i = s)
  ∧ (∀ c, requested (Query.category q) = Some c → Issue.category i = c).



(** The distance from the origin of the request to an issue, as [inRadius]
    computes it. *)
Definition distanceTo (rt : Runtime) (q : Query.t) (i : Issue.t) : float :=
  getDistance rt (parseFloatParam rt (Query.lat q)) (parseFloatParam rt (Query.lng q))
    (Issue.lat i) (Issue.lng i).

(** The radius test read on supplied parameters rather than truthy ones: it
    applies whenever both coordinates are supplied, and the radius is 5 only
    when [distance] is not supplied. *)
Definition suppliedInRadius (rt : Runtime) (q : Query.t) (i : Issue.t) : bool :=
  match Query.lat q, Query.lng q with
  | Some _, Some _ =>
      (distanceTo rt q i <=?
         match Query.distance q with
         | Some d => parseFloat rt d
         | None => 5
         end)%float
  | _, _ => true
  end.

(** The same request with another [distance] parameter. *)
Definition withDistance (q : Query.t) (d : option string) : Query.t := {|
  Query.status := Query.status q;
  Query.category := Query.category q;
  Query.distance := d;
  Query.lat := Query.lat q;
  Query.lng := Query.lng q
|}.

(** The number of stored issues of a category. *)
Definition issuesOf (c : string) (db : list Issue.t) : nat :=
  length (filter (λ i, Issue.category i = c) db).

(** The total of the counts of a GROUP BY result. *)
Definition total (m : gmap string nat) : nat := sum_list ((map_to_list m).*2).

(** ** Sample data *)

Definition pothole : Issue.t := {|
  Issue.id := "a3";
  Issue.title := "Pothole";
  Issue.description := "Deep pothole at the crossing";
  Issue.category := "Roads";
  Issue.status := "Reported";
  Issue.lat := 12.5;
  Issue.lng := 56.75;
  Issue.userId := "u1";
  Issue.flags := 0;
  Issue.createdAt := "2025-08-02T09:00:00.000Z"
|}.

Definition lamp : Issue.t := {|
  Issue.id := "b7";
  Issue.title := "Street lamp";
  Issue.description := "The lamp at the corner is broken";
  Issue.category := "Lighting";
  Issue.status := "In Progress";
  Issue.lat := 12.5;
  Issue.lng := 56.75;
  Issue.userId := "u2";
  Issue.flags := 3;
  Issue.createdAt := "2025-08-02T09:05:00.000Z"
|}.

Definition leak : Issue.t := {|
  Issue.id := "c1";
  Issue.title := "Leak";
  Issue.description := "Water main leaking";
  Issue.category := "Roads";
  Issue.status := "Resolved";
  Issue.lat := 12.75;
  Issue.lng := 56.75;
  Issue.userId := "u1";
  Issue.flags := 2;
  Issue.createdAt := "2025-08-02T09:10:00.000Z"
|}.

Definition sampleDb : list Issue.t := [pothole; lamp; leak].


(** [GET /api/issues?category=Roads&lat=12.5&lng=56.75] *)
Definition nearQuery : Query.t := {|
  Query.status := None;
  Query.category := Some "Roads";
  Query.distance := None;
  Query.lat := Some "12.5";
  Query.lng := Some "56.75"
|}.

(** [GET /api/issues?lat=&lng=56.75] *)
Definition emptyLatQuery : Query.t := {|
  Query.status := None;
  Query.category := None;
  Query.distance := None;
  Query.lat := Some "";
  Query.lng := Some "56.75"
|}.

(** [GET /api/issues?category=Roads&lat=12.5&lng=56.75&distance=3] *)
Definition within3 : Query.t := withDistance nearQuery (Some "3").

(** ** The routes that write: login, issue creation, flagging *)

(** A value of a JSON request body.  [JsObject] stands for the arrays and
    objects, whose content no route reads. *)
Inductive JsValue :=
| JsUndefined
| JsNull
| JsBool (b : bool)
| JsNumber (n : float)
| JsString (s : string)
| JsObject.

(** [ToBoolean]: what [!v] negates. *)
Definition toBoolean (v : JsValue) : bool :=
  match v with
  | JsUndefined | JsNull => false
  | JsBool b => b
  | JsNumber n => negb ((n =? 0)%float || is_nan n)
  | JsString s => negb (String.eqb s "")
  | JsObject => true
  end.

(** [typeof v === 'string'] *)
Definition isString (v : JsValue) : bool :=
  match v with
  | JsString _ => true
  | _ => false
  end.

(** [v.length] of a string, in code units. *)
Definition lengthOf (v : JsValue) : nat :=
  match v with
  | JsString s => String.length s
  | _ => 0
  end.

(** [l.includes(v)] for an array [l] of strings: strict equality, so only
    a string can be found. *)
Definition includesValue (l : list string) (v : JsValue) : bool :=
  match v with
  | JsString s => includes l s
  | _ => false
  end.

(** A row of [users]. *)
Module User.
Record t := {
  id : string;
  username : string;
  role : string
}.
End User.

(** The in-memory database: its two tables, rows in insertion order. *)
Record Db := {
  users : list User.t;
  issues : list Issue.t
}.

(** [db.serialize]: the two empty tables, then the default admin, whose id
    is the UUID drawn at start-up. *)
Definition initDb (adminId : string) : Db := {|
  users := [ {| User.id := adminId; User.username := "admin"; User.role := "admin" |} ];
  issues := []
|}.

(** [INSERT INTO users]: refused when the id (PRIMARY KEY) or the username
    (UNIQUE) is taken. *)
Definition insertUser (u : User.t) (db : Db) : option Db :=
  if existsb (λ v, String.eqb (User.id v) (User.id u)) (users db)
     || existsb (λ v, String.eqb (User.username v) (User.username u)) (users db)
  then None
  else Some {| users := users db ++ [u]; issues := issues db |}.

(** [INSERT INTO issues]: refused when the id (PRIMARY KEY) is taken.  The
    foreign key on [userId] is declared, and SQLite does not enforce it
    unless asked to, which the server does not do. *)
Definition insertIssue (i : Issue.t) (db : Db) : option Db :=
  if existsb (λ j, String.eqb (Issue.id j) (Issue.id i)) (issues db)
  then None
  else Some {| users := users db; issues := issues db ++ [i] |}.

(** [db.get('SELECT * FROM users WHERE username = ?')]: the first row. *)
Definition userByName (name : string) (db : Db) : option User.t :=
  List.find (λ u, String.eqb (User.username u) name) (users db).

(** [POST /api/login], with the UUID that [uuidv4()] returns if it is
    called. *)
Definition login (db : Db) (username : JsValue) (uuid : string)
  : Response User.t * Db :=
  if negb (toBoolean username) || negb (isString username) || (lengthOf username <? 3) then
    (Status 400 "Username must be at least 3 characters", db)
  else
    match username with
    | JsString name =>
        match userByName name db with
        | Some user =>
            (Json {| User.id := User.id user; User.username := User.username user;
                     User.role := User.role user |}, db)
        | None =>
            let userId := uuid in
            match insertUser {| User.id := userId; User.username := name;
                                User.role := "user" |} db with
            | None => (Status 500 "Failed to create user", db)
            | Some db' =>
                (Json {| User.id := userId; User.username := name; User.role := "user" |}, db')
            end
        end
    | _ => (Status 400 "Username must be at least 3 characters", db)
    end.

(** The body of [POST /api/issues]. *)
Module IssueBody.
Record t := {
  title : JsValue;
  description : JsValue;
  category : JsValue;
  lat : JsValue;
  lng : JsValue;
  userId : JsValue
}.
End IssueBody.

(** [`Invalid category. Must be one of: ${validCategories.join(', ')}`] *)
Definition invalidCategoryMessage : string :=
  "Invalid category. Must be one of: " ++ String.concat ", " validCategories.

(** The row [INSERT INTO issues] stores for a body whose fields have the
    types of their columns: strings, and numbers for [lat] and [lng].
    [status] is ['Reported'] and [flags] takes its default, 0.  For a field
    of another JSON type what is stored depends on the conversions of the
    SQLite binding: such a body has no row here. *)
Definition issueRow (b : IssueBody.t) (id createdAt : string) : option Issue.t :=
  match IssueBody.title b, IssueBody.description b, IssueBody.category b,
        IssueBody.lat b, IssueBody.lng b, IssueBody.userId b with
  | JsString title, JsString description, JsString category,
    JsNumber lat, JsNumber lng, JsString userId =>
      Some {| Issue.id := id; Issue.title := title; Issue.description := description;
              Issue.category := category; Issue.status := "Reported";
              Issue.lat := lat; Issue.lng := lng; Issue.userId := userId;
              Issue.flags := 0; Issue.createdAt := createdAt |}
  | _, _, _, _, _, _ => None
  end.

(** [POST /api/issues], with the UUID and the date the handler draws.  The
    result is [None] when the body passes the two checks and has no row (see
    [issueRow]). *)
Definition createIssue (db : Db) (b : IssueBody.t) (uuid now : string)
  : option (Response string * Db) :=
  if negb (toBoolean (IssueBody.title b)) || negb (toBoolean (IssueBody.description b))
     || negb (toBoolean (IssueBody.category b)) || negb (toBoolean (IssueBody.lat b))
     || negb (toBoolean (IssueBody.lng b)) || negb (toBoolean (IssueBody.userId b)) then
    Some (Status 400 "All fields are required", db)
  else if negb (includesValue validCategories (IssueBody.category b)) then
    Some (Status 400 invalidCategoryMessage, db)
  else
    let id := uuid in
    let createdAt := now in
    match issueRow b id createdAt with
    | None => None
    | Some row =>
        match insertIssue row db with
        | None => Some (Status 500 "Failed to create issue", db)
        | Some db' => Some (Json id, db')
        end
    end.

(** [UPDATE issues SET flags = flags + 1 WHERE id = ?].  [flags] is the
    number of flags received; the column leaves the 64-bit integers only
    after 2^63 of them. *)
Definition addFlag (id : string) (i : Issue.t) : Issue.t :=
  if String.eqb (Issue.id i) id then
    {| Issue.id := Issue.id i; Issue.title := Issue.title i;
       Issue.description := Issue.description i; Issue.category := Issue.category i;
       Issue.status := Issue.status i; Issue.lat := Issue.lat i; Issue.lng := Issue.lng i;
       Issue.userId := Issue.userId i; Issue.flags := (Issue.flags i + 1)%Z;
       Issue.createdAt := Issue.createdAt i |}
  else i.

(** [POST /api/issues/:id/flag]: the answer is [{ success: true }] whether
    or not a row has the id. *)
Definition flagIssue (db : Db) (id : string) : Response unit * Db :=
  (Json tt, {| users := users db; issues := map (addFlag id) (issues db) |}).

(** A request that may change the database, with what its handler draws. *)
Inductive Request :=
| PostLogin (username : JsValue) (uuid : string)
| PostIssue (body : IssueBody.t) (uuid now : string)
| PostFlag (id : string).

(** The database after a request, when the model has it. *)
Definition serve (db : Db) (r : Request) : option Db :=
  match r with
  | PostLogin username uuid => Some (login db username uuid).2
  | PostIssue body uuid now => snd <$> createIssue db body uuid now
  | PostFlag id => Some (flagIssue db id).2
  end.

(** The databases the server goes through: from start-up, one request after
    the other. *)
Inductive reachable : Db → Prop :=
| reachable_init (adminId : string) : reachable (initDb adminId)
| reachable_serve (db db' : Db) (r : Request) :
    reachable db → serve db r = Some db' → reachable db'.


(** What holds of every database the server goes through. *)
Record consistent (db : Db) : Prop := {
  usernames_unique : NoDup (User.username <$> users db);
  user_ids_unique : NoDup (User.id <$> users db);
  issue_ids_unique : NoDup (Issue.id <$> issues db);
  admin_exists : ∃ u, u ∈ users db ∧ User.username u = "admin" ∧ User.role u = "admin";
  admin_is_admin : ∀ u, u ∈ users db → User.role u = "admin" → User.username u = "admin";
  roles_known : ∀ u, u ∈ users db → User.role u = "admin" ∨ User.role u = "user";
  issues_reported : ∀ i, i ∈ issues db → Issue.status i = "Reported";
  issues_categorised : ∀ i, i ∈ issues db → Issue.category i ∈ validCategories;
  issues_flags : ∀ i, i ∈ issues db → (0 ≤ Issue.flags i)%Z;
  issues_located : ∀ i, i ∈ issues db →
    toBoolean (JsNumber (Issue.lat i)) = true ∧ toBoolean (JsNumber (Issue.lng i)) = true
}.


(** The values of the built-ins that the distance from a point to itself
    goes through: [Math.sin(0)], [Math.sqrt(0)] and [Math.atan2(0, 1)] are 0
    and [Math.sqrt(1)] is 1. *)
Definition zero_cases (rt : Runtime) : Prop :=
  Math_sin rt 0 = 0%float
  ∧ Math_sqrt rt 0 = 0%float
  ∧ Math_sqrt rt 1 = 1%float
  ∧ Math_atan2 rt 0 1 = 0%float.

(** The database after [n] flag requests on the same id. *)
Fixpoint flagTimes (n : nat) (db : Db) (id : string) : Db :=
  match n with
  | O => db
  | S n' => (flagIssue (flagTimes n' db id) id).2
  end.

(** An issue with another number of flags. *)
Definition setFlags (f : Z) (i : Issue.t) : Issue.t :=
  {| Issue.id := Issue.id i; Issue.title := Issue.title i;
     Issue.description := Issue.description i; Issue.category := Issue.category i;
     Issue.status := Issue.status i; Issue.lat := Issue.lat i; Issue.lng := Issue.lng i;
     Issue.userId := Issue.userId i; Issue.flags := f;
     Issue.createdAt := Issue.createdAt i |}.

(** [i'] is [i] with as many flags or more, and nothing else changed. *)
Definition laterVersion (i i' : Issue.t) : Prop :=
  ∃ f, (Issue.flags i ≤ f)%Z ∧ i' = setFlags f i.


(** The same request with another [status], another [category]. *)
Definition withStatus (q : Query.t) (s : option string) : Query.t := {|
  Query.status := s;
  Query.category := Query.category q;
  Query.distance := Query.distance q;
  Query.lat := Query.lat q;
  Query.lng := Query.lng q
|}.

Definition withCategory (q : Query.t) (c : option string) : Query.t := {|
  Query.status := Query.status q;
  Query.category := c;
  Query.distance := Query.distance q;
  Query.lat := Query.lat q;
  Query.lng := Query.lng q
|}.

(** ** More sample data *)

Definition startDb : Db := initDb "0000-admin".

Definition alice : User.t :=
  {| User.id := "u1"; User.username := "alice"; User.role := "user" |}.

(** The database after [alice] has logged in for the first time. *)
Definition withAlice : Db :=
  {| users := users startDb ++ [alice]; issues := [] |}.

Definition potholeBody : IssueBody.t := {|
  IssueBody.title := JsString "Pothole";
  IssueBody.description := JsString "Deep pothole at the crossing";
  IssueBody.category := JsString "Roads";
  IssueBody.lat := JsNumber 12.5;
  IssueBody.lng := JsNumber 56.75;
  IssueBody.userId := JsString "u1"
|}.

(** The database after [alice] has reported the pothole. *)
Definition withPothole : Db :=
  {| users := users withAlice; issues := [pothole] |}.

(** * Part II: proofs *)

(** ** IEEE-754 binary64: sign symmetry and order *)

Module Ieee.

Section Spec.
Variables prec emax : Z.

Lemma SFopp_involutive (x : spec_float) : SFopp (SFopp x) = x.
Proof. destruct x as [s|s| |s m e]; simpl; rewrite ?negb_involutive; reflexivity. Qed.

Lemma binary_round_aux_negb s m e l :
  binary_round_aux prec emax (negb s) m e l
  = SFopp (binary_round_aux prec emax s m e l).
Proof.
  unfold binary_round_aux.
  destruct (shr_fexp prec emax m e l) as [mrs' e'].
  destruct (shr_fexp prec emax _ e' loc_Exact) as [mrs'' e''].
  destruct (shr_m mrs''); simpl; try reflexivity.
  destruct (Z.leb e'' (Z.sub emax prec)); reflexivity.
Qed.

Lemma binary_round_negb s m e :
  binary_round prec emax (negb s) m e = SFopp (binary_round prec emax s m e).
Proof.
  unfold binary_round.
  destruct (shl_align m e _) as [mz ez].
  apply binary_round_aux_negb.
Qed.

Lemma binary_normalize_opp m e :
  binary_normalize prec emax (Z.opp m) e false
  = SFopp (binary_normalize prec emax m e false)
  \/ binary_normalize prec emax (Z.opp m) e false
     = binary_normalize prec emax m e false.
Proof.
  destruct m as [|p|p]; simpl.
  - right; reflexivity.
  - left. apply (binary_round_negb false).
  - left.
    change (binary_round prec emax true p e)
      with (binary_round prec emax (negb false) p e).
    rewrite binary_round_negb, SFopp_involutive. reflexivity.
Qed.

Lemma SFmul_opp_l x y :
  SFmul prec emax (SFopp x) y = SFopp (SFmul prec emax x y).
Proof.
  destruct x as [sx|sx| |sx mx ex], y as [sy|sy| |sy my ey]; simpl;
    rewrite <- ?negb_xorb_l; try reflexivity.
  apply binary_round_aux_negb.
Qed.

Lemma SFmul_comm x y : SFmul prec emax x y = SFmul prec emax y x.
Proof.
  destruct x as [sx|sx| |sx mx ex], y as [sy|sy| |sy my ey]; simpl;
    rewrite ?(xorb_comm sx sy); try reflexivity.
  rewrite (Pos.mul_comm mx my), (Z.add_comm ex ey). reflexivity.
Qed.

Lemma SFdiv_opp_l x y :
  SFdiv prec emax (SFopp x) y = SFopp (SFdiv prec emax x y).
Proof.
  destruct x as [sx|sx| |sx mx ex], y as [sy|sy| |sy my ey]; simpl;
    rewrite <- ?negb_xorb_l; try reflexivity.
  destruct (SFdiv_core_binary prec emax (Zpos mx) ex (Zpos my) ey) as [[mz ez] lz].
  apply binary_round_aux_negb.
Qed.

Lemma cond_Zopp_sub_swap sx sy (a b : Z) :
  Z.sub (cond_Zopp sy b) (cond_Zopp sx a)
  = Z.opp (Z.sub (cond_Zopp sx a) (cond_Zopp sy b)).
Proof. lia. Qed.

(** Subtraction is anti-symmetric up to the sign of a zero result:
    [x - x] and its swap are both [+0]. *)
Lemma SFsub_swap x y :
  SFsub prec emax y x = SFopp (SFsub prec emax x y)
  \/ SFsub prec emax y x = SFsub prec emax x y.
Proof.
  destruct x as [sx|sx| |sx mx ex], y as [sy|sy| |sy my ey]; simpl;
    try (left; reflexivity);
    try (destruct sx, sy; simpl; auto; fail).
  rewrite (Z.min_comm ey ex), cond_Zopp_sub_swap.
  apply binary_normalize_opp.
Qed.

(** [SFleb] is transitive: signs first, then exponents, then mantissas. *)
Lemma SFleb_trans x y z :
  SFleb x y = true -> SFleb y z = true -> SFleb x z = true.
Proof.
  unfold SFleb.
  destruct x as [sx|sx| |sx mx ex], y as [sy|sy| |sy my ey],
           z as [sz|sz| |sz mz ez]; simpl;
    try discriminate; try reflexivity;
    try (destruct sx; try discriminate; try reflexivity);
    try (destruct sy; try discriminate; try reflexivity);
    try (destruct sz; try discriminate; try reflexivity).
  all: rewrite ?Pos.compare_cont_spec; simpl.
  all: destruct (Z.compare_spec ex ey), (Z.compare_spec ey ez),
         (Z.compare_spec ex ez); try discriminate; try reflexivity;
         try lia; subst.
  all: destruct (Pos.compare_spec mx my), (Pos.compare_spec my mz),
         (Pos.compare_spec mx mz); simpl; try discriminate;
         try reflexivity; try lia.
Qed.

End Spec.

(** The same facts on primitive floats: [to_spec] moves an equation
    between floats to their specifications. *)
Ltac to_spec :=
  apply Prim2SF_inj;
  rewrite ?FloatAxioms.opp_spec, ?FloatAxioms.abs_spec, ?FloatAxioms.mul_spec,
    ?FloatAxioms.div_spec, ?FloatAxioms.sub_spec, ?FloatAxioms.add_spec,
    ?FloatAxioms.opp_spec, ?FloatAxioms.abs_spec.

Local Open Scope float_scope.

Lemma opp_involutive (x : float) : - - x = x.
Proof. to_spec. apply SFopp_involutive. Qed.

Lemma mul_comm (x y : float) : x * y = y * x.
Proof. to_spec. apply SFmul_comm. Qed.

Lemma mul_opp_l (x y : float) : (- x) * y = - (x * y).
Proof. to_spec. apply SFmul_opp_l. Qed.

Lemma mul_opp_r (x y : float) : x * (- y) = - (x * y).
Proof. rewrite (mul_comm x (- y)), mul_opp_l, (mul_comm y x). reflexivity. Qed.

Lemma mul_opp_opp (x y : float) : (- x) * (- y) = x * y.
Proof. rewrite mul_opp_l, mul_opp_r. apply opp_involutive. Qed.

Lemma div_opp_l (x y : float) : (- x) / y = - (x / y).
Proof. to_spec. apply SFdiv_opp_l. Qed.

Lemma sub_swap (x y : float) : y - x = - (x - y) \/ y - x = x - y.
Proof.
  destruct (SFsub_swap prec emax (Prim2SF x) (Prim2SF y)) as [H|H];
    [left | right]; to_spec; exact H.
Qed.

Lemma abs_opp (x : float) : abs (- x) = abs x.
Proof. to_spec. destruct (Prim2SF x); reflexivity. Qed.

Lemma is_infinity_opp (x : float) : is_infinity (- x) = is_infinity x.
Proof. unfold is_infinity. rewrite abs_opp. reflexivity. Qed.

Lemma add_nan_l (x : float) : nan + x = nan.
Proof. to_spec. reflexivity. Qed.

Lemma leb_trans (x y z : float) :
  (x <=? y) = true -> (y <=? z) = true -> (x <=? z) = true.
Proof. rewrite !FloatAxioms.leb_spec. apply SFleb_trans. Qed.

(** [x === y] on numbers entails [x <= y]. *)
Lemma eqb_leb (x y : float) : (x =? y) = true -> (x <=? y) = true.
Proof.
  rewrite FloatAxioms.eqb_spec, FloatAxioms.leb_spec. unfold SFeqb, SFleb.
  destruct (SFcompare (Prim2SF x) (Prim2SF y)) as [[| |]|]; auto.
Qed.


End Ieee.

(** ** The distance *)

Section DistanceFacts.
Context (rt : Runtime).
Local Open Scope float_scope.

Lemma halfSin_opp (d : float) : sin_odd rt -> halfSin rt (- d) = - halfSin rt d.
Proof.
  intros Hodd. unfold halfSin.
  rewrite Ieee.mul_opp_l, !Ieee.div_opp_l. apply Hodd.
Qed.

(** Swapping the operands of the subtraction negates the half-angle sine,
    or leaves it unchanged (when the difference is a zero). *)
Lemma halfSin_swap (x y : float) :
  sin_odd rt ->
  halfSin rt (y - x) = - halfSin rt (x - y) \/ halfSin rt (y - x) = halfSin rt (x - y).
Proof.
  intros Hodd. destruct (Ieee.sub_swap x y) as [H|H]; rewrite H.
  - left. apply halfSin_opp, Hodd.
  - right. reflexivity.
Qed.

Lemma halfSin_square_swap (x y : float) :
  sin_odd rt ->
  halfSin rt (y - x) * halfSin rt (y - x) = halfSin rt (x - y) * halfSin rt (x - y).
Proof.
  intros Hodd. destruct (halfSin_swap x y Hodd) as [H|H]; rewrite H.
  - apply Ieee.mul_opp_opp.
  - reflexivity.
Qed.

Lemma halfSin_scaled_square_swap (k x y : float) :
  sin_odd rt ->
  k * halfSin rt (y - x) * halfSin rt (y - x)
  = k * halfSin rt (x - y) * halfSin rt (x - y).
Proof.
  intros Hodd. destruct (halfSin_swap x y Hodd) as [H|H]; rewrite H.
  - rewrite !Ieee.mul_opp_r, Ieee.mul_opp_l. apply Ieee.opp_involutive.
  - reflexivity.
Qed.

Lemma getDistance_swap (lat1 lng1 lat2 lng2 : float) :
  sin_odd rt -> getDistance rt lat1 lng1 lat2 lng2 = getDistance rt lat2 lng2 lat1 lng1.
Proof.
  intros Hodd. unfold getDistance. cbv zeta.
  fold (halfSin rt (lat2 - lat1)) (halfSin rt (lat1 - lat2))
       (halfSin rt (lng2 - lng1)) (halfSin rt (lng1 - lng2)).
  rewrite (halfSin_square_swap lat1 lat2 Hodd).
  rewrite (halfSin_scaled_square_swap _ lng1 lng2 Hodd).
  rewrite (Ieee.mul_comm (Math_cos rt (lat1 * Math_PI / 180))).
  reflexivity.
Qed.

End DistanceFacts.

(** ** The model engine *)

Lemma model_sin_odd : sin_odd Model.runtime.
Proof.
  intros x. simpl. unfold Model.sin.
  rewrite Ieee.is_infinity_opp, Ieee.mul_opp_opp, Ieee.mul_opp_l.
  destruct (is_infinity x); reflexivity.
Qed.

Lemma model_nan_cases : nan_cases Model.runtime.
Proof.
  repeat split. intros x. simpl. unfold Model.atan2.
  replace (is_nan nan) with true by reflexivity.
  by rewrite orb_true_r.
Qed.

(** [parseFloat] on the strings a client sends. *)
Example model_parseFloat_examples :
  Model.parseFloat "12.5" = 12.5%float
  ∧ Model.parseFloat " 56.75km" = 56.75%float
  ∧ Model.parseFloat "-0.5e1" = (-5)%float
  ∧ Model.parseFloat "3.141592653589793" = Math_PI
  ∧ Model.parseFloat "" = nan
  ∧ Model.parseFloat "abc" = nan.
Proof. repeat split; vm_compute; reflexivity. Qed.

(** One degree of longitude on the equator is 111.19 km, and a point is at
    distance 0 from itself. *)
Example model_distance_examples :
  (111.125 <? getDistance Model.runtime 0 0 0 1)%float = true
  ∧ (getDistance Model.runtime 0 0 0 1 <? 111.25)%float = true
  ∧ getDistance Model.runtime 12.5 56.75 12.5 56.75 = 0%float.
Proof. repeat split; vm_compute; reflexivity. Qed.

(** ** What [GET /api/issues] computes *)

Section HandlerFacts.
Context (rt : Runtime).

Lemma statusClause_spec (v : option string) (query : list Cond) :
  statusClause v query =
    if rejected validStatuses v then Return (Status 400 "Invalid status")
    else Continue (query ++ match requested v with Some s => [StatusEq s] | None => [] end).
Proof.
  unfold statusClause, rejected, requested.
  destruct v as [s|]; [|by rewrite app_nil_r].
  destruct (truthy (Some s) && negb (String.eqb s "all")); [|by rewrite app_nil_r].
  by destruct (includes validStatuses s).
Qed.

Lemma categoryClause_spec (v : option string) (query : list Cond) :
  categoryClause v query =
    if rejected validCategories v then Return (Status 400 "Invalid category")
    else Continue (query ++ match requested v with Some c => [CategoryEq c] | None => [] end).
Proof.
  unfold categoryClause, rejected, requested.
  destruct v as [s|]; [|by rewrite app_nil_r].
  destruct (truthy (Some s) && negb (String.eqb s "all")); [|by rewrite app_nil_r].
  by destruct (includes validCategories s).
Qed.

(** The handler, branch by branch. *)
Lemma getIssues_spec (db : list Issue.t) (q : Query.t) :
  getIssues rt db q =
    if rejected validStatuses (Query.status q) then Status 400 "Invalid status"
    else if rejected validCategories (Query.category q) then Status 400 "Invalid category"
    else Json (filter (λ issue, inRadius rt q issue = true) (db_all (clauses q) db)).
Proof.
  unfold getIssues, getIssuesSteps, clauses.
  rewrite statusClause_spec.
  destruct (rejected validStatuses (Query.status q)); [done|]. simpl.
  rewrite categoryClause_spec.
  destruct (rejected validCategories (Query.category q)); [done|]. simpl.
  by rewrite <- ?app_assoc.
Qed.

Lemma filter_none {A} (l : list A) : [] = filter (λ _ : A, false = true) l.
Proof. induction l as [|x l IH]; [done|]. by rewrite filter_cons_False. Qed.

(** Whatever the branch, what is returned is a filter of the rows of the
    query. *)
Lemma returned_getIssues_filter (db : list Issue.t) (q : Query.t) :
  ∃ P : Issue.t → bool,
    returned (getIssues rt db q) = filter (λ i, P i = true) (db_all (clauses q) db).
Proof.
  rewrite getIssues_spec.
  destruct (rejected validStatuses (Query.status q));
    [exists (λ _, false); apply filter_none|].
  destruct (rejected validCategories (Query.category q));
    [exists (λ _, false); apply filter_none|].
  by exists (inRadius rt q).
Qed.

Lemma returned_getIssues_ok (db : list Issue.t) (q : Query.t) :
  ¬ isError (getIssues rt db q) →
  returned (getIssues rt db q)
  = filter (λ i, inRadius rt q i = true) (db_all (clauses q) db).
Proof.
  rewrite getIssues_spec.
  destruct (rejected validStatuses (Query.status q)); simpl; [tauto|].
  destruct (rejected validCategories (Query.category q)); simpl; [tauto|done].
Qed.

End HandlerFacts.

Lemma clauses_passesGates (q : Query.t) (i : Issue.t) :
  forallb (holds i) (clauses q) = true ↔ passesGates q i.
Proof.
  unfold clauses, passesGates.
  rewrite !forallb_app, !andb_true_iff. simpl. rewrite andb_true_r, Z.ltb_lt.
  destruct (requested (Query.status q)) as [s|],
           (requested (Query.category q)) as [c|]; simpl;
    rewrite ?andb_true_r, ?String.eqb_eq;
    (split; [intros H; repeat split; try tauto; intros ? [= <-]; tauto
            |intros (H1 & H2 & H3); repeat split; auto]).
Qed.

Lemma db_all_passesGates (q : Query.t) (db : list Issue.t) (i : Issue.t) :
  i ∈ db_all (clauses q) db ↔ passesGates q i ∧ i ∈ db.
Proof. unfold db_all. by rewrite list_elem_of_filter, clauses_passesGates. Qed.

Lemma db_all_sublist (conds : list Cond) (db : list Issue.t) :
  db_all conds db `sublist_of` db.
Proof. apply sublist_filter. Qed.

Lemma filter_Forall_id {A} (P : A → Prop) `{!∀ x, Decision (P x)} (l : list A) :
  Forall P l → filter P l = l.
Proof.
  induction 1 as [|x l Hx _ IH]; [done|].
  by rewrite filter_cons_True, IH.
Qed.

Lemma filter_sublist_mono {A} (P Q : A → Prop)
    `{!∀ x, Decision (P x)} `{!∀ x, Decision (Q x)} (l : list A) :
  (∀ x, P x → Q x) → filter P l `sublist_of` filter Q l.
Proof.
  intros HPQ. induction l as [|x l IH]; [done|].
  destruct (decide (P x)) as [HP|HP].
  - rewrite (filter_cons_True P), (filter_cons_True Q) by auto.
    by apply sublist_skip.
  - rewrite (filter_cons_False P) by done.
    destruct (decide (Q x)).
    + rewrite (filter_cons_True Q) by done. by apply sublist_cons.
    + by rewrite (filter_cons_False Q).
Qed.

(** The handlers on the sample table: the flagged lamp is hidden from the
    public list and is the only issue of the moderation list; an unknown
    status is refused. *)
Example sample_requests :
  getIssues Model.runtime sampleDb Query.empty = Json [pothole; leak]
  ∧ getIssues Model.runtime sampleDb nearQuery = Json [pothole]
  ∧ getIssues Model.runtime sampleDb (withDistance nearQuery (Some "30"))
    = Json [pothole; leak]
  ∧ getIssues Model.runtime sampleDb
      {| Query.status := Some "InvalidStatus"; Query.category := None;
         Query.distance := None; Query.lat := None; Query.lng := None |}
    = Status 400 "Invalid status"
  ∧ getAdminIssues sampleDb = Json [lamp].
Proof. repeat split; vm_compute; reflexivity. Qed.

(** ** The spam gate *)

(** C1: whatever the stored issues and whatever the query parameters, no
    issue that [GET /api/issues] returns has three flags or more: the
    condition [flags < 3] is part of every query the handler runs. *)
Theorem getIssues_hides_flagged (rt : Runtime) (db : list Issue.t) (q : Query.t) :
  Forall (λ i, (Issue.flags i < 3)%Z) (returned (getIssues rt db q)).
Proof.
  destruct (returned_getIssues_filter rt db q) as [P ->].
  apply Forall_forall. intros i Hi.
  apply list_elem_of_filter in Hi as [_ Hi].
  apply db_all_passesGates in Hi as [Hi _]. apply Hi.
Qed.

(** ** Visible and flagged issues *)

Lemma getIssues_empty (rt : Runtime) (db : list Issue.t) :
  getIssues rt db Query.empty = Json (filter (λ i, (Issue.flags i < 3)%Z) db).
Proof.
  rewrite getIssues_spec. simpl. f_equal.
  rewrite filter_Forall_id by (apply Forall_forall; done).
  apply list_filter_iff. intros i.
  rewrite clauses_passesGates. unfold passesGates. simpl.
  split; [intros [H _]; exact H | intros H; repeat split; [exact H | discriminate..]].
Qed.

Lemma getAdminIssues_spec (db : list Issue.t) :
  getAdminIssues db = Json (filter (λ i, ¬ (Issue.flags i < 3)%Z) db).
Proof.
  unfold getAdminIssues, db_all. f_equal.
  apply list_filter_iff. intros i. simpl.
  rewrite andb_true_r, Z.leb_le. lia.
Qed.

(** C2: with no query parameter, [GET /api/issues] and
    [GET /api/admin/issues] split the stored issues in two: the first
    returns those with fewer than three flags, the second those with three
    or more; together they hold every stored issue exactly once, and no issue
    is in both. *)
Theorem visible_flagged_partition (rt : Runtime) (db : list Issue.t) :
  ∃ visible flagged,
    getIssues rt db Query.empty = Json visible
    ∧ getAdminIssues db = Json flagged
    ∧ visible ++ flagged ≡ₚ db
    ∧ Forall (λ i, (Issue.flags i < 3)%Z) visible
    ∧ Forall (λ i, (3 ≤ Issue.flags i)%Z) flagged
    ∧ ∀ i, i ∈ db → (i ∈ visible ∧ i ∉ flagged) ∨ (i ∈ flagged ∧ i ∉ visible).
Proof.
  eexists _, _.
  split; [apply getIssues_empty|]. split; [apply getAdminIssues_spec|].
  split; [apply filter_app_complement|].
  split; [|split].
  - apply Forall_forall. intros i Hi. by apply list_elem_of_filter in Hi as [? _].
  - apply Forall_forall. intros i Hi. apply list_elem_of_filter in Hi as [? _]. lia.
  - intros i Hi. rewrite !list_elem_of_filter.
    destruct (decide (Issue.flags i < 3)%Z); [left|right]; tauto.
Qed.

(** ** Invalid filter values *)

Lemma includes_elem_of (l : list string) (s : string) :
  includes l s = true ↔ s ∈ l.
Proof.
  unfold includes. rewrite existsb_exists. split.
  - intros (x & Hx & Heq). apply String.eqb_eq in Heq as ->.
    by apply list_elem_of_In.
  - intros Hs. exists s. split; [by apply list_elem_of_In | apply String.eqb_refl].
Qed.

Lemma requested_Some (v : option string) (s : string) :
  requested v = Some s ↔ v = Some s ∧ s ≠ "" ∧ s ≠ "all".
Proof.
  unfold requested, truthy.
  destruct v as [t|]; [|split; [discriminate | intros ([=] & _)]].
  destruct (String.eqb_spec t ""), (String.eqb_spec t "all"); simpl;
    split; try discriminate; try (intros [= <-]; done);
    try (intros ([= <-] & ? & ?); done).
Qed.




(** ** Order of the result *)

(** C6: the issues [GET /api/issues] returns are a subsequence of the
    stored rows: the survivors keep the relative order they have in the
    table, nothing is sorted or duplicated. *)
Theorem getIssues_keeps_order (rt : Runtime) (db : list Issue.t) (q : Query.t) :
  returned (getIssues rt db q) `sublist_of` db.
Proof.
  destruct (returned_getIssues_filter rt db q) as [P ->].
  etrans; [apply sublist_filter | apply db_all_sublist].
Qed.

(** ** The radius gate *)

Lemma inRadius_origin (rt : Runtime) (q : Query.t) (i : Issue.t) :
  truthy (Query.lat q) = true → truthy (Query.lng q) = true →
  inRadius rt q i = (distanceTo rt q i <=? radiusKm rt (Query.distance q))%float.
Proof. intros Hlat Hlng. unfold inRadius. by rewrite Hlat, Hlng. Qed.

Lemma inRadius_no_origin (rt : Runtime) (q : Query.t) (i : Issue.t) :
  truthy (Query.lat q) = false ∨ truthy (Query.lng q) = false →
  inRadius rt q i = true.
Proof.
  intros H. unfold inRadius.
  destruct H as [-> | ->]; [done|]. by rewrite orb_true_r.
Qed.


(** C3, amended: take the issues that pass the spam, status and category
    gates.  When [lat] and [lng] are both non-empty strings,
    [GET /api/issues] returns exactly those of them whose distance from the
    origin is at most the radius, the radius being [parseFloat(distance)], or
    5 when [distance] is absent or empty; an issue at exactly the radius is
    returned.  When [lat] or [lng] is absent or empty, it returns all of
    them. *)
Theorem getIssues_radius_gate (rt : Runtime) (db : list Issue.t) (q : Query.t) :
  ¬ isError (getIssues rt db q) →
  let gated := db_all (clauses q) db in
  let radius := radiusKm rt (Query.distance q) in
  (∀ i, i ∈ gated ↔ passesGates q i ∧ i ∈ db)
  ∧ (truthy (Query.lat q) = true → truthy (Query.lng q) = true →
       returned (getIssues rt db q)
       = filter (λ i, (distanceTo rt q i <=? radius)%float = true) gated
       ∧ ∀ i, i ∈ gated → (distanceTo rt q i =? radius)%float = true →
              i ∈ returned (getIssues rt db q))
  ∧ (truthy (Query.lat q) = false ∨ truthy (Query.lng q) = false →
       returned (getIssues rt db q) = gated)
  ∧ (truthy (Query.distance q) = false → radius = 5%float)
  ∧ (∀ d, Query.distance q = Some d → d ≠ "" → radius = parseFloat rt d).
Proof.
  intros Hok gated radius. rewrite (returned_getIssues_ok rt db q Hok).
  fold gated. split; [apply db_all_passesGates|]. split; [|split; [|split]].
  - intros Hlat Hlng.
    assert (filter (λ i, inRadius rt q i = true) gated
            = filter (λ i, (distanceTo rt q i <=? radius)%float = true) gated) as Heq.
    { apply list_filter_iff. intros i. by rewrite inRadius_origin. }
    split; [exact Heq|]. intros i Hi Hd.
    rewrite Heq. apply list_elem_of_filter. split; [|done].
    by apply Ieee.eqb_leb.
  - intros Hno. apply filter_Forall_id, Forall_forall. intros i _.
    by apply inRadius_no_origin.
  - intros Hd. unfold radius, radiusKm. by rewrite Hd.
  - intros d Hd Hne. unfold radius, radiusKm. rewrite Hd. simpl.
    by destruct (String.eqb_spec d "").
Qed.

Lemma getIssues_radius_gate_witness :
  returned (getIssues Model.runtime sampleDb nearQuery)
  = filter (λ i, (distanceTo Model.runtime nearQuery i <=? 5)%float = true)
      (db_all (clauses nearQuery) sampleDb).
Proof.
  destruct (getIssues_radius_gate Model.runtime sampleDb nearQuery) as (_ & H & _).
  - vm_compute. tauto.
  - apply H; reflexivity.
Defined.

(** C3 as stated fails for [GET /api/issues?lat=&lng=56.75]: both
    coordinates are supplied and the distance from the origin (NaN, as
    [parseFloat] of the empty string is NaN) is not at most 5, yet the issue
    is returned. *)
Lemma empty_latitude_skips_radius :
  suppliedInRadius Model.runtime emptyLatQuery pothole = false
  ∧ returned (getIssues Model.runtime [pothole] emptyLatQuery) = [pothole].
Proof. split; vm_compute; reflexivity. Qed.

(** ** Monotonicity in the radius *)

Lemma inRadius_mono (rt : Runtime) (q : Query.t) (d' : option string) (i : Issue.t) :
  (radiusKm rt (Query.distance q) <=? radiusKm rt d')%float = true →
  inRadius rt q i = true → inRadius rt (withDistance q d') i = true.
Proof.
  intros Hle. unfold inRadius. simpl.
  destruct (negb (truthy (Query.lat q)) || negb (truthy (Query.lng q))); [done|].
  intros Hd. by eapply Ieee.leb_trans.
Qed.

(** C9: enlarging the radius never loses an issue.  If the radius of a
    request is at most the radius of a second request that differs from it
    only in [distance], every issue that passes the radius test of the first
    passes that of the second, and what [GET /api/issues] returns for the
    first is a subsequence of what it returns for the second. *)
Theorem getIssues_radius_monotone (rt : Runtime) (db : list Issue.t)
    (q : Query.t) (d' : option string) :
  (radiusKm rt (Query.distance q) <=? radiusKm rt d')%float = true →
  (∀ i, inRadius rt q i = true → inRadius rt (withDistance q d') i = true)
  ∧ returned (getIssues rt db q)
      `sublist_of` returned (getIssues rt db (withDistance q d')).
Proof.
  intros Hle. split; [intros i; by apply inRadius_mono|].
  rewrite !getIssues_spec. simpl.
  destruct (rejected validStatuses (Query.status q)); [done|].
  destruct (rejected validCategories (Query.category q)); [done|].
  simpl. change (clauses (withDistance q d')) with (clauses q).
  apply filter_sublist_mono. intros i. by apply inRadius_mono.
Qed.

Lemma getIssues_radius_monotone_witness :
  returned (getIssues Model.runtime sampleDb within3)
    `sublist_of` returned (getIssues Model.runtime sampleDb
                             (withDistance within3 (Some "30.5"))).
Proof.
  apply (getIssues_radius_monotone Model.runtime sampleDb within3 (Some "30.5")).
  vm_compute. reflexivity.
Defined.

(** ** Analytics *)

Lemma group_count_lookup (db : list Issue.t) (c : string) :
  group_count db !! c = if decide (issuesOf c db = 0) then None else Some (issuesOf c db).
Proof.
  unfold issuesOf. induction db as [|i db IH]; [apply lookup_empty|].
  simpl. rewrite lookup_insert. destruct (decide (Issue.category i = c)) as [Heq|Hne].
  - rewrite filter_cons_True by done. simpl.
    rewrite Heq, IH. by destruct (decide (length _ = 0)) as [->|].
  - rewrite filter_cons_False by done. exact IH.
Qed.

(** A row of the GROUP BY result: a category with its number of issues,
    which is not zero. *)
Lemma group_count_row (db : list Issue.t) (c : string) (n : nat) :
  (c, n) ∈ map_to_list (group_count db) ↔ n = issuesOf c db ∧ n ≠ 0.
Proof.
  rewrite elem_of_map_to_list, group_count_lookup.
  destruct (decide (issuesOf c db = 0)) as [Hz|Hnz].
  - split; [discriminate | intros [-> ?]; done].
  - split; [intros [= <-]; done | intros [-> _]; done].
Qed.

Lemma total_insert (m : gmap string nat) (k : string) (v : nat) :
  total (<[k:=v]> m) + default 0 (m !! k) = total m + v.
Proof.
  unfold total. destruct (m !! k) as [n|] eqn:Hk; simpl.
  - rewrite <- (insert_delete_eq m k v).
    rewrite map_to_list_insert by apply lookup_delete_eq.
    rewrite <- (map_to_list_delete m k n Hk). rewrite !fmap_cons. simpl. lia.
  - rewrite map_to_list_insert by done. rewrite fmap_cons. simpl. unfold fmap. lia.
Qed.

Lemma total_group_count (db : list Issue.t) : total (group_count db) = length db.
Proof.
  induction db as [|i db IH]; [done|]. simpl.
  pose proof (total_insert (group_count db) (Issue.category i)
                (S (default 0 (group_count db !! Issue.category i)))). lia.
Qed.

Example sample_analytics :
  returned (getAnalytics sampleDb) ≡ₚ [("Roads", 2); ("Lighting", 1)].
Proof. vm_compute. apply Permutation_refl || apply perm_swap. Qed.

(** C5: the counts [GET /api/admin/analytics] returns add up to the
    number of stored issues: every issue, flagged or not, is counted once, in
    the row of its category, and nothing is filtered out. *)
Theorem getAnalytics_counts_all (db : list Issue.t) :
  sum_list ((returned (getAnalytics db)).*2) = length db
  ∧ ∀ c n, (c, n) ∈ returned (getAnalytics db) → n = issuesOf c db.
Proof.
  split; [apply total_group_count|].
  intros c n Hcn. by apply group_count_row in Hcn as [-> _].
Qed.

(** C10: [GET /api/admin/analytics] has a row only for a category that
    some stored issue has: every count is at least 1, the categories of the
    rows are exactly those of the stored issues, each once, and no row
    reports a count of zero. *)
Theorem getAnalytics_rows_nonempty (db : list Issue.t) :
  Forall (λ row, 1 ≤ row.2) (returned (getAnalytics db))
  ∧ NoDup ((returned (getAnalytics db)).*1)
  ∧ ∀ c, c ∈ (returned (getAnalytics db)).*1 ↔ ∃ i, i ∈ db ∧ Issue.category i = c.
Proof.
  simpl. split; [|split].
  - apply Forall_forall. intros [c n] Hcn. apply group_count_row in Hcn as [-> Hn].
    simpl. lia.
  - apply NoDup_fst_map_to_list.
  - intros c. rewrite list_elem_of_fmap. split.
    + intros ([c' n] & -> & Hcn). apply group_count_row in Hcn as [-> Hn]. simpl.
      unfold issuesOf in Hn.
      destruct (filter (λ i, Issue.category i = c') db) as [|i l] eqn:Hf; [done|].
      assert (i ∈ filter (λ i, Issue.category i = c') db) as Hi by (rewrite Hf; left).
      apply list_elem_of_filter in Hi as [? ?]. by exists i.
    + intros (i & Hi & <-). exists (Issue.category i, issuesOf (Issue.category i) db).
      split; [done|]. apply group_count_row. split; [done|].
      unfold issuesOf. intros Hlen. apply length_zero_iff_nil in Hlen.
      eapply filter_nil_not_elem_of; [exact Hlen | | exact Hi]. done.
Qed.

(** ** Symmetry of the distance *)

(** C7: [getDistance] is symmetric: exchanging the two points gives the
    same number.  The proof uses the sign symmetry of binary64 arithmetic and
    that [Math.sin] is odd; the two results are the same value, and compare
    equal with [===] unless they are NaN. *)
Theorem getDistance_symmetric (rt : Runtime) (lat1 lng1 lat2 lng2 : float) :
  sin_odd rt →
  getDistance rt lat1 lng1 lat2 lng2 = getDistance rt lat2 lng2 lat1 lng1
  ∧ (is_nan (getDistance rt lat1 lng1 lat2 lng2) = false →
     (getDistance rt lat1 lng1 lat2 lng2 =? getDistance rt lat2 lng2 lat1 lng1)%float = true).
Proof.
  intros Hodd. pose proof (getDistance_swap rt lat1 lng1 lat2 lng2 Hodd) as Heq.
  split; [exact Heq|]. rewrite <- Heq. unfold is_nan.
  by destruct (getDistance rt lat1 lng1 lat2 lng2 =? getDistance rt lat1 lng1 lat2 lng2)%float.
Qed.

Lemma getDistance_symmetric_witness :
  getDistance Model.runtime 12.5 56.75 48.5 2.25
  = getDistance Model.runtime 48.5 2.25 12.5 56.75.
Proof.
  apply (getDistance_symmetric Model.runtime 12.5 56.75 48.5 2.25 model_sin_odd).
Defined.

(** ** Finite inputs with a result that is not finite *)

(** X1: when the two latitudes are finite and their difference overflows, the
    half-angle is infinite, its sine is NaN and so is the distance: this
    holds for every engine that has ECMAScript's special cases. *)
Theorem getDistance_overflow_nan (rt : Runtime) (lng1 lng2 : float) :
  nan_cases rt →
  is_finite (-0x1p+1023) = true ∧ is_finite 0x1p+1023 = true
  ∧ getDistance rt (-0x1p+1023) lng1 0x1p+1023 lng2 = nan.
Proof.
  intros (Hsin & Hsqrt & Hatan). repeat split.
  unfold getDistance. cbv zeta.
  replace ((0x1p+1023 - -0x1p+1023) * Math_PI / 180 / 2)%float
    with infinity by reflexivity.
  rewrite Hsin.
  replace (nan * nan)%float with nan by reflexivity.
  rewrite Ieee.add_nan_l, Hsqrt, Hatan. reflexivity.
Qed.

Lemma getDistance_overflow_nan_witness :
  getDistance Model.runtime (-0x1p+1023) 0 0x1p+1023 0 = nan.
Proof.
  apply (getDistance_overflow_nan Model.runtime 0 0 model_nan_cases).
Defined.

(** ** The routes that write *)

(** *** Lookups and insertions *)

Lemma existsb_eqb_elem_of {A} (f : A → string) (s : string) (l : list A) :
  existsb (λ x, String.eqb (f x) s) l = true ↔ s ∈ (f <$> l).
Proof.
  rewrite existsb_exists, list_elem_of_fmap. split.
  - intros (x & Hx & Heq). apply String.eqb_eq in Heq. exists x.
    split; [done | by apply list_elem_of_In].
  - intros (x & -> & Hx). exists x. split; [by apply list_elem_of_In | apply String.eqb_refl].
Qed.

Lemma existsb_eqb_false {A} (f : A → string) (s : string) (l : list A) :
  existsb (λ x, String.eqb (f x) s) l = false ↔ s ∉ (f <$> l).
Proof.
  rewrite <- existsb_eqb_elem_of. by destruct (existsb _ l).
Qed.

Lemma insertUser_Some (u : User.t) (db db' : Db) :
  insertUser u db = Some db' ↔
    (User.id u ∉ User.id <$> users db) ∧ (User.username u ∉ User.username <$> users db)
    ∧ db' = {| users := users db ++ [u]; issues := issues db |}.
Proof.
  unfold insertUser. rewrite <- !existsb_eqb_false.
  destruct (existsb _ (users db)), (existsb _ (users db)); simpl;
    split; try discriminate; try (intros (? & ? & ?); discriminate).
  - by intros [= <-].
  - by intros (_ & _ & ->).
Qed.

Lemma insertIssue_Some (i : Issue.t) (db db' : Db) :
  insertIssue i db = Some db' ↔
    (Issue.id i ∉ Issue.id <$> issues db)
    ∧ db' = {| users := users db; issues := issues db ++ [i] |}.
Proof.
  unfold insertIssue. rewrite <- existsb_eqb_false.
  destruct (existsb _ (issues db)); simpl;
    split; try discriminate; try (intros (? & ?); discriminate).
  - by intros [= <-].
  - by intros (_ & ->).
Qed.

Lemma userByName_Some (name : string) (db : Db) (u : User.t) :
  userByName name db = Some u → u ∈ users db ∧ User.username u = name.
Proof.
  unfold userByName. intros H. apply find_some in H as [Hin Heq].
  split; [by apply list_elem_of_In | by apply String.eqb_eq].
Qed.



(** In a table with unique names the row of a name is the one found. *)
Lemma userByName_unique (db : Db) (u : User.t) :
  NoDup (User.username <$> users db) → u ∈ users db →
  userByName (User.username u) db = Some u.
Proof.
  unfold userByName. induction (users db) as [|v l IH]; [by intros _ ?%elem_of_nil|].
  rewrite fmap_cons, NoDup_cons. intros [Hv Hl] Hu. simpl.
  apply elem_of_cons in Hu as [->|Hu]; [by rewrite String.eqb_refl|].
  destruct (String.eqb_spec (User.username v) (User.username u)) as [Heq|_]; [|by apply IH].
  exfalso. apply Hv. rewrite Heq. apply list_elem_of_fmap. by exists u.
Qed.

(** *** Login *)

Lemma login_name (db : Db) (name : string) (uuid : string) :
  3 ≤ String.length name →
  login db (JsString name) uuid =
    match userByName name db with
    | Some user =>
        (Json {| User.id := User.id user; User.username := User.username user;
                 User.role := User.role user |}, db)
    | None =>
        match insertUser {| User.id := uuid; User.username := name; User.role := "user" |} db with
        | None => (Status 500 "Failed to create user", db)
        | Some db' => (Json {| User.id := uuid; User.username := name; User.role := "user" |}, db')
        end
    end.
Proof.
  intros Hlen. unfold login. simpl.
  destruct (String.eqb_spec name "") as [->|_]; [simpl in Hlen; lia|]. simpl.
  by destruct (Nat.ltb_spec (String.length name) 3); [lia|].
Qed.

Lemma login_refused (db : Db) (v : JsValue) (uuid : string) :
  (¬ ∃ name, v = JsString name ∧ 3 ≤ String.length name) →
  login db v uuid = (Status 400 "Username must be at least 3 characters", db).
Proof.
  intros Hno. unfold login.
  destruct v as [| |b|n|s|]; simpl; rewrite ?orb_true_r; try done.
  destruct (Nat.ltb_spec (String.length s) 3); [by rewrite orb_true_r|].
  exfalso. apply Hno. by exists s.
Qed.

Lemma classic_name (v : JsValue) :
  (∃ name, v = JsString name ∧ 3 ≤ String.length name)
  ∨ ¬ ∃ name, v = JsString name ∧ 3 ≤ String.length name.
Proof.
  destruct v as [| |b|n|s|]; try (right; intros (? & [=] & _); fail).
  destruct (le_lt_dec 3 (String.length s)); [left; by exists s|].
  right. intros (? & [= <-] & ?). lia.
Qed.




(** The four ways a login ends. *)
Lemma login_cases (db : Db) (v : JsValue) (uuid : string) :
  login db v uuid = (Status 400 "Username must be at least 3 characters", db)
  ∨ login db v uuid = (Status 500 "Failed to create user", db)
  ∨ (∃ u, u ∈ users db ∧ v = JsString (User.username u) ∧ login db v uuid = (Json u, db))
  ∨ (∃ name, v = JsString name ∧ (name ∉ User.username <$> users db)
       ∧ (uuid ∉ User.id <$> users db)
       ∧ login db v uuid
         = (Json {| User.id := uuid; User.username := name; User.role := "user" |},
            {| users := users db
                        ++ [{| User.id := uuid; User.username := name; User.role := "user" |}];
               issues := issues db |})).
Proof.
  destruct (classic_name v) as [(name & -> & Hlen)|Hno];
    [|left; by apply login_refused].
  rewrite login_name by done.
  destruct (userByName name db) as [u|] eqn:Hfind.
  - right; right; left. apply userByName_Some in Hfind as [Hin <-].
    exists u. by destruct u.
  - destruct (insertUser _ db) as [db1|] eqn:Hins; [|right; left; done].
    right; right; right.
    apply insertUser_Some in Hins as (Hid & Hname & ->). by exists name.
Qed.

(** X4: login stores at most one row, a user of role ['user'] at the end
    of [users]; it never changes an existing user or an issue, and an error
    answer stores nothing. *)
Theorem login_only_appends (db db' : Db) (v : JsValue) (uuid : string)
    (r : Response User.t) :
  login db v uuid = (r, db') →
  issues db' = issues db
  ∧ (db' = db
     ∨ ∃ name, v = JsString name ∧ (name ∉ User.username <$> users db)
         ∧ r = Json {| User.id := uuid; User.username := name; User.role := "user" |}
         ∧ users db' = users db
                       ++ [{| User.id := uuid; User.username := name; User.role := "user" |}])
  ∧ (isError r → db' = db).
Proof.
  intros Hlogin.
  destruct (login_cases db v uuid)
    as [H|[H|[(u & _ & _ & H)|(name & Hv & Hname & _ & H)]]];
    rewrite H in Hlogin; injection Hlogin as <- <-; simpl; try tauto.
  split; [done|]. split; [|tauto]. right. by exists name.
Qed.

Lemma login_only_appends_witness :
  issues withAlice = issues startDb.
Proof.
  apply (login_only_appends startDb withAlice (JsString "alice") "u1" (Json alice)).
  reflexivity.
Defined.

(** *** Issue creation *)




Lemma includesValue_Some (l : list string) (v : JsValue) :
  includesValue l v = true ↔ ∃ s, v = JsString s ∧ s ∈ l.
Proof.
  destruct v as [| |b|n|s|]; simpl;
    try (split; [discriminate | intros (? & [=] & _)]).
  rewrite includes_elem_of. split; [by exists s | by intros (? & [= <-] & ?)].
Qed.

(** What an accepted creation stores. *)
Lemma createIssue_Json (db db' : Db) (b : IssueBody.t) (uuid now id : string) :
  createIssue db b uuid now = Some (Json id, db') →
  ∃ row, issueRow b uuid now = Some row
    ∧ id = uuid
    ∧ (uuid ∉ Issue.id <$> issues db)
    ∧ Issue.category row ∈ validCategories
    ∧ toBoolean (JsNumber (Issue.lat row)) = true
    ∧ toBoolean (JsNumber (Issue.lng row)) = true
    ∧ db' = {| users := users db; issues := issues db ++ [row] |}.
Proof.
  unfold createIssue.
  destruct (toBoolean (IssueBody.title b)); [|discriminate].
  destruct (toBoolean (IssueBody.description b)); [|discriminate].
  destruct (toBoolean (IssueBody.category b)); [|discriminate].
  destruct (toBoolean (IssueBody.lat b)) eqn:Hlat; [|discriminate].
  destruct (toBoolean (IssueBody.lng b)) eqn:Hlng; [|discriminate]. simpl.
  destruct (toBoolean (IssueBody.userId b)); [|discriminate]. simpl.
  destruct (includesValue validCategories (IssueBody.category b)) eqn:Hcat; [|discriminate].
  simpl. destruct (issueRow b uuid now) as [row|] eqn:Hrow; [|discriminate].
  destruct (insertIssue row db) as [db1|] eqn:Hins; [|discriminate].
  intros [= <- <-]. exists row. split; [done|]. split; [done|].
  apply insertIssue_Some in Hins as [Hid ->].
  apply includesValue_Some in Hcat as (c & Hc & Hin).
  unfold issueRow in Hrow. rewrite Hc in Hrow.
  destruct (IssueBody.title b), (IssueBody.description b), (IssueBody.lat b),
    (IssueBody.lng b), (IssueBody.userId b); try discriminate.
  injection Hrow as <-. simpl in *. done.
Qed.





(** *** Flagging *)

Lemma addFlag_other (id : string) (i : Issue.t) : Issue.id i ≠ id → addFlag id i = i.
Proof. intros H. unfold addFlag. by destruct (String.eqb_spec (Issue.id i) id). Qed.

Lemma addFlag_same (i : Issue.t) :
  addFlag (Issue.id i) i = setFlags (Issue.flags i + 1) i.
Proof. unfold addFlag. by rewrite String.eqb_refl. Qed.

Lemma addFlag_laterVersion (id : string) (i : Issue.t) : laterVersion i (addFlag id i).
Proof.
  unfold addFlag. destruct (String.eqb (Issue.id i) id).
  - exists (Issue.flags i + 1)%Z. split; [lia | done].
  - exists (Issue.flags i). split; [lia | by destruct i].
Qed.

Lemma db_eta (db : Db) : {| users := users db; issues := issues db |} = db.
Proof. by destruct db. Qed.

(** X8: flagging an id that no issue has is answered [{ success: true }]
    like any other, and changes nothing: the route never answers 404. *)
Theorem flagIssue_unknown (db : Db) (id : string) :
  (id ∉ Issue.id <$> issues db) → flagIssue db id = (Json tt, db).
Proof.
  intros Hid. unfold flagIssue. f_equal.
  assert (map (addFlag id) (issues db) = issues db) as ->; [|apply db_eta].
  induction (issues db) as [|i l IH]; [done|].
  rewrite fmap_cons, not_elem_of_cons in Hid. destruct Hid as [Hne Hid]. simpl.
  rewrite addFlag_other by done. by rewrite IH.
Qed.

Lemma flagIssue_unknown_witness : flagIssue withPothole "zz" = (Json tt, withPothole).
Proof.
  apply flagIssue_unknown. vm_compute.
  intros H. by repeat (apply elem_of_cons in H as [H|H]; [discriminate|]);
    apply elem_of_nil in H.
Defined.

Lemma issues_flagTimes (n : nat) (db : Db) (id : string) :
  issues (flagTimes n db id) = Nat.iter n (map (addFlag id)) (issues db)
  ∧ users (flagTimes n db id) = users db.
Proof. induction n as [|n [IHi IHu]]; [done|]. simpl. by rewrite IHi, IHu. Qed.

Lemma iter_addFlag_elem (n : nat) (l : list Issue.t) (i : Issue.t) :
  i ∈ l →
  setFlags (Issue.flags i + Z.of_nat n) i ∈ Nat.iter n (map (addFlag (Issue.id i))) l.
Proof.
  intros Hi. induction n as [|n IH].
  - simpl. replace (setFlags _ i) with i; [done|].
    destruct i. unfold setFlags. simpl. f_equal. lia.
  - simpl. apply list_elem_of_fmap.
    exists (setFlags (Issue.flags i + Z.of_nat n) i). split; [|done].
    change (Issue.id i) with (Issue.id (setFlags (Issue.flags i + Z.of_nat n) i)) at 1.
    rewrite addFlag_same. unfold setFlags. simpl. f_equal. lia.
Qed.

(** X9: flags add up, whoever sends them: after [n] flag requests on an
    issue that had [f] flags, the issue is stored with [f + n] flags and
    nothing else changed; [GET /api/issues] still returns it exactly when
    [f + n < 3], and the moderation list has it exactly when [f + n >= 3]. *)
Theorem flagTimes_hides (rt : Runtime) (db : Db) (i : Issue.t) (n : nat) :
  i ∈ issues db →
  let db' := flagTimes n db (Issue.id i) in
  let i' := setFlags (Issue.flags i + Z.of_nat n) i in
  i' ∈ issues db'
  ∧ (i' ∈ returned (getIssues rt (issues db') Query.empty)
     ↔ (Issue.flags i + Z.of_nat n < 3)%Z)
  ∧ (i' ∈ returned (getAdminIssues (issues db'))
     ↔ (3 ≤ Issue.flags i + Z.of_nat n)%Z).
Proof.
  intros Hi db' i'.
  assert (i' ∈ issues db') as Hi'.
  { unfold db'. rewrite (proj1 (issues_flagTimes _ _ _)). by apply iter_addFlag_elem. }
  split; [done|].
  rewrite getIssues_empty, getAdminIssues_spec. cbn [returned].
  rewrite !list_elem_of_filter. unfold i' at 1 3. simpl. split; [tauto|].
  split; [intros [? _]; lia | intros ?; split; [lia | done]].
Qed.

Lemma flagTimes_hides_witness :
  setFlags 3 pothole ∈ returned (getAdminIssues (issues (flagTimes 3 withPothole "a3"))).
Proof.
  destruct (flagTimes_hides Model.runtime withPothole pothole 3) as (_ & _ & H).
  - left.
  - apply H. reflexivity.
Defined.

Lemma group_count_addFlag (id : string) (l : list Issue.t) :
  group_count (map (addFlag id) l) = group_count l.
Proof.
  induction l as [|i l IH]; [done|]. simpl. rewrite IH.
  assert (Issue.category (addFlag id i) = Issue.category i) as ->; [|done].
  unfold addFlag. by destruct (String.eqb (Issue.id i) id).
Qed.


Lemma map_addFlag_laterVersion (id : string) (l : list Issue.t) :
  Forall2 laterVersion l (map (addFlag id) l).
Proof.
  induction l as [|i l IH]; [constructor|].
  constructor; [apply addFlag_laterVersion | exact IH].
Qed.

(** X10: a flag request changes flags and nothing else: the users, the
    number and the order of the issues and everything an issue says stay as
    they were, no flag count goes down, and the rows of
    [GET /api/admin/analytics] are the same. *)
Theorem flagIssue_only_flags (db : Db) (id : string) :
  users (flagIssue db id).2 = users db
  ∧ Forall2 laterVersion (issues db) (issues (flagIssue db id).2)
  ∧ getAnalytics (issues (flagIssue db id).2) = getAnalytics (issues db).
Proof.
  unfold getAnalytics, flagIssue. cbn [snd issues users].
  split; [done|]. split; [apply map_addFlag_laterVersion|].
  by rewrite group_count_addFlag.
Qed.



(** *** Every database the server goes through *)

Lemma consistent_init (adminId : string) : consistent (initDb adminId).
Proof.
  split; simpl; try (intros ? []%elem_of_nil); try apply NoDup_nil_2;
    try apply NoDup_singleton.
  - eexists. split; [left | done].
  - by intros u ->%list_elem_of_singleton.
  - intros u ->%list_elem_of_singleton. by left.
Qed.

Lemma consistent_login (db : Db) (v : JsValue) (uuid : string) :
  consistent db → consistent (login db v uuid).2.
Proof.
  intros Hc.
  destruct (login_cases db v uuid)
    as [H|[H|[(u & _ & _ & H)|(name & Hv & Hname & Hid & H)]]];
    rewrite H; try exact Hc.
  destruct Hc. split; cbn [snd users issues]; try done.
  - rewrite fmap_app. apply NoDup_app. split; [done|]. split.
    + intros x Hx ->%list_elem_of_singleton. done.
    + apply NoDup_singleton.
  - rewrite fmap_app. apply NoDup_app. split; [done|]. split.
    + intros x Hx ->%list_elem_of_singleton. done.
    + apply NoDup_singleton.
  - destruct admin_exists0 as (a & Ha & ?). exists a.
    split; [apply elem_of_app; by left | done].
  - intros u [Hu| ->%list_elem_of_singleton]%elem_of_app; [by apply admin_is_admin0|].
    discriminate.
  - intros u [Hu| ->%list_elem_of_singleton]%elem_of_app; [by apply roles_known0|].
    by right.
Qed.

Lemma consistent_createIssue (db db' : Db) (b : IssueBody.t) (uuid now : string)
    (r : Response string) :
  consistent db → createIssue db b uuid now = Some (r, db') → consistent db'.
Proof.
  intros Hc Hcreate. destruct r as [id|code msg].
  - apply createIssue_Json in Hcreate
      as (row & Hrow & -> & Hid & Hcat & Hlat & Hlng & ->).
    assert (Issue.id row = uuid ∧ Issue.status row = "Reported" ∧ Issue.flags row = 0%Z)
      as (Hrid & Hst & Hfl).
    { unfold issueRow in Hrow.
      destruct (IssueBody.title b), (IssueBody.description b), (IssueBody.category b),
        (IssueBody.lat b), (IssueBody.lng b), (IssueBody.userId b); try discriminate.
      by injection Hrow as <-. }
    destruct Hc. split; cbn [users issues]; try done.
    + rewrite fmap_app. apply NoDup_app. split; [done|]. split.
      * intros x Hx ->%list_elem_of_singleton. by rewrite Hrid in Hx.
      * apply NoDup_singleton.
    + intros i [Hi| ->%list_elem_of_singleton]%elem_of_app; [by apply issues_reported0 | done].
    + intros i [Hi| ->%list_elem_of_singleton]%elem_of_app; [by apply issues_categorised0 | done].
    + intros i [Hi| ->%list_elem_of_singleton]%elem_of_app; [by apply issues_flags0 | lia].
    + intros i [Hi| ->%list_elem_of_singleton]%elem_of_app; [by apply issues_located0 | done].
  - unfold createIssue in Hcreate.
    destruct (_ || _); [by injection Hcreate as <- <- <-|].
    destruct (negb _); [by injection Hcreate as <- <- <-|].
    destruct (issueRow b uuid now) as [row|]; [|discriminate].
    destruct (insertIssue row db); [discriminate | by injection Hcreate as <- <- <-].
Qed.

Lemma addFlag_fields (id : string) (i : Issue.t) :
  Issue.id (addFlag id i) = Issue.id i
  ∧ Issue.status (addFlag id i) = Issue.status i
  ∧ Issue.category (addFlag id i) = Issue.category i
  ∧ Issue.lat (addFlag id i) = Issue.lat i
  ∧ Issue.lng (addFlag id i) = Issue.lng i
  ∧ (Issue.flags i ≤ Issue.flags (addFlag id i))%Z.
Proof.
  unfold addFlag. destruct (String.eqb (Issue.id i) id); simpl; repeat split; lia.
Qed.

Lemma ids_addFlag (id : string) (l : list Issue.t) :
  Issue.id <$> map (addFlag id) l = Issue.id <$> l.
Proof.
  induction l as [|i l IH]; [done|]. simpl.
  rewrite (proj1 (addFlag_fields id i)). f_equal. exact IH.
Qed.

Lemma consistent_flagIssue (db : Db) (id : string) :
  consistent db → consistent (flagIssue db id).2.
Proof.
  intros Hc. destruct Hc. split; cbn [flagIssue snd users issues]; try done.
  - by rewrite ids_addFlag.
  - intros i' (i & -> & Hi)%list_elem_of_fmap.
    destruct (addFlag_fields id i) as (_ & -> & _). by apply issues_reported0.
  - intros i' (i & -> & Hi)%list_elem_of_fmap.
    destruct (addFlag_fields id i) as (_ & _ & -> & _). by apply issues_categorised0.
  - intros i' (i & -> & Hi)%list_elem_of_fmap.
    destruct (addFlag_fields id i) as (_ & _ & _ & _ & _ & Hle).
    specialize (issues_flags0 i Hi). lia.
  - intros i' (i & -> & Hi)%list_elem_of_fmap.
    destruct (addFlag_fields id i) as (_ & _ & _ & -> & -> & _). by apply issues_located0.
Qed.

Lemma consistent_serve (db db' : Db) (r : Request) :
  consistent db → serve db r = Some db' → consistent db'.
Proof.
  intros Hc. destruct r as [v uuid|b uuid now|id]; simpl.
  - intros [= <-]. by apply consistent_login.
  - destruct (createIssue db b uuid now) as [[r db1]|] eqn:Hcreate; [|discriminate].
    intros [= <-]. by eapply consistent_createIssue.
  - intros [= <-]. by apply consistent_flagIssue.
Qed.

Lemma reachable_is_consistent (db : Db) : reachable db → consistent db.
Proof.
  induction 1 as [adminId|db db' r _ IH Hserve];
    [apply consistent_init | by eapply consistent_serve].
Qed.

Lemma reachable_withPothole : reachable withPothole.
Proof.
  eapply (reachable_serve withAlice _
            (PostIssue potholeBody "a3" "2025-08-02T09:00:00.000Z")); [|reflexivity].
  eapply (reachable_serve startDb _ (PostLogin (JsString "alice") "u1")); [|reflexivity].
  apply reachable_init.
Qed.







(** X14: the role ['admin'] is had for the asking: in every database the
    server goes through, a login with the username ['admin'] is answered with
    the admin user, role ['admin'], no credential being read. *)
Theorem admin_login (db : Db) (uuid : string) :
  reachable db →
  ∃ id, login db (JsString "admin") uuid
        = (Json {| User.id := id; User.username := "admin"; User.role := "admin" |}, db).
Proof.
  intros Hc%reachable_is_consistent. destruct Hc.
  destruct admin_exists0 as (a & Ha & Hname & Hrole).
  exists (User.id a). rewrite login_name by (simpl; lia).
  assert (userByName "admin" db = Some a) as ->
    by (rewrite <- Hname; by apply userByName_unique).
  by rewrite Hname, Hrole.
Qed.

Lemma admin_login_witness :
  ∃ id, login withPothole (JsString "admin") "9999"
        = (Json {| User.id := id; User.username := "admin"; User.role := "admin" |},
           withPothole).
Proof. apply (admin_login withPothole "9999" reachable_withPothole). Defined.

(** *** What no request undoes *)














(** ** More on the filters of [GET /api/issues] *)

(** The value ['all'] and the empty string are the same as no value: for
    [status] and for [category], a request with either answers exactly as the
    request without the parameter. *)
Lemma all_means_no_filter (rt : Runtime) (db : list Issue.t) (q : Query.t) :
  getIssues rt db (withStatus q (Some "all")) = getIssues rt db (withStatus q None)
  ∧ getIssues rt db (withStatus q (Some "")) = getIssues rt db (withStatus q None)
  ∧ getIssues rt db (withCategory q (Some "all")) = getIssues rt db (withCategory q None)
  ∧ getIssues rt db (withCategory q (Some "")) = getIssues rt db (withCategory q None).
Proof. rewrite !getIssues_spec. repeat split. Qed.

Lemma sublist_filter_mono {A} (P : A → Prop) `{!∀ x, Decision (P x)} (l k : list A) :
  l `sublist_of` k → filter P l `sublist_of` filter P k.
Proof.
  induction 1 as [|x l k _ IH|x l k _ IH]; [done| |].
  - rewrite !filter_cons. destruct (decide (P x)); [by apply sublist_skip | done].
  - rewrite filter_cons. destruct (decide (P x)); [by apply sublist_cons | done].
Qed.

Lemma requested_None_or (v : option string) (s : string) :
  requested v = Some s → v = Some s.
Proof. by intros (? & _)%requested_Some. Qed.

(** X17: a filter only narrows: what a request returns is a subsequence
    of what the same request without [status] and [category] returns, which is
    a subsequence of what the request without any parameter returns. *)
Theorem filters_only_narrow (rt : Runtime) (db : list Issue.t) (q : Query.t) :
  returned (getIssues rt db q)
    `sublist_of` returned (getIssues rt db (withStatus (withCategory q None) None))
  ∧ returned (getIssues rt db (withStatus (withCategory q None) None))
    `sublist_of` returned (getIssues rt db Query.empty).
Proof.
  rewrite getIssues_empty, !getIssues_spec.
  cbn [withStatus withCategory Query.status Query.category].
  simpl (rejected _ None). cbn iota. split.
  - destruct (rejected validStatuses (Query.status q)); [apply sublist_nil_l|].
    destruct (rejected validCategories (Query.category q)); [apply sublist_nil_l|].
    cbn [returned]. apply sublist_filter_mono. unfold db_all.
    apply filter_sublist_mono. intros i. rewrite !clauses_passesGates.
    intros (? & _ & _). repeat split; [done | discriminate..].
  - cbn [returned]. etrans; [apply sublist_filter|].
    apply filter_sublist_mono. intros i. rewrite clauses_passesGates.
    by intros (? & _).
Qed.



(** ** NaN and zero in the distance *)

Module IeeeSpecial.
Import Ieee.
Local Open Scope float_scope.





(** A finite float is a zero or has a mantissa and an exponent. *)
Lemma Prim2SF_finite (x : float) :
  is_finite x = true →
  (∃ s, Prim2SF x = S754_zero s) ∨ (∃ s m e, Prim2SF x = S754_finite s m e).
Proof.
  unfold is_finite, Prim2SF.
  destruct (is_nan x); [discriminate|]. destruct (is_infinity x); [discriminate|].
  intros _. destruct (PrimFloat.is_zero x); [left; by eexists|].
  destruct (FloatOps.Z.frexp x) as [r ex]. destruct (shr_fexp _ _ _ _ _) as [mrs e'].
  destruct (shr_m mrs); [left | right | left]; by repeat eexists.
Qed.

(** [x - x] is [+0] for a finite [x]. *)
Lemma sub_diag_finite (x : float) : is_finite x = true → x - x = 0.
Proof.
  intros Hx. to_spec. change (Prim2SF 0) with (S754_zero false).
  destruct (Prim2SF_finite x Hx) as [[s ->]|(s & m & e & ->)].
  - by destruct s.
  - unfold SF64sub, SFsub. by rewrite Z.sub_diag.
Qed.

(** A finite product times zero, twice, added to [+0], is [+0]. *)
Lemma add_zero_mul_zero (p : float) : is_finite p = true → 0 + p * 0 * 0 = 0.
Proof.
  intros Hp. to_spec. rewrite !FloatAxioms.mul_spec.
  change (Prim2SF 0) with (S754_zero false).
  destruct (Prim2SF_finite p Hp) as [[s ->]|(s & m & e & ->)]; by destruct s.
Qed.

End IeeeSpecial.

Section SpecialDistances.
Context (rt : Runtime).
Local Open Scope float_scope.


Lemma getDistance_same (lat lng : float) :
  zero_cases rt → is_finite lat = true → is_finite lng = true →
  is_finite (Math_cos rt (lat * Math_PI / 180) * Math_cos rt (lat * Math_PI / 180)) = true →
  getDistance rt lat lng lat lng = 0.
Proof.
  intros (Hsin & Hsqrt0 & Hsqrt1 & Hatan) Hlat Hlng Hcos.
  unfold getDistance. cbv zeta.
  rewrite !IeeeSpecial.sub_diag_finite by done.
  replace (0 * Math_PI / 180 / 2) with 0 by reflexivity.
  rewrite Hsin. replace (0 * 0) with 0 by reflexivity.
  rewrite IeeeSpecial.add_zero_mul_zero by done.
  rewrite Hsqrt0. replace (1 - 0) with 1 by reflexivity.
  rewrite Hsqrt1, Hatan. reflexivity.
Qed.

End SpecialDistances.


Lemma model_zero_cases : zero_cases Model.runtime.
Proof. repeat split. Qed.



(** X20: the distance from a point to itself is 0, and so within every
    radius that is not negative: for finite coordinates, on an engine where
    [Math.sin(0)], [Math.sqrt(0)] and [Math.atan2(0, 1)] are 0, [Math.sqrt(1)]
    is 1 and the square of the cosine of the latitude is finite. *)
Theorem getDistance_same_point (rt : Runtime) (lat lng r : float) :
  zero_cases rt → is_finite lat = true → is_finite lng = true →
  is_finite (Math_cos rt (lat * Math_PI / 180) * Math_cos rt (lat * Math_PI / 180))%float
    = true →
  getDistance rt lat lng lat lng = 0%float
  ∧ ((0 <=? r)%float = true → (getDistance rt lat lng lat lng <=? r)%float = true).
Proof.
  intros Hrt Hlat Hlng Hcos.
  rewrite (getDistance_same rt lat lng Hrt Hlat Hlng Hcos). done.
Qed.

Lemma getDistance_same_point_witness :
  getDistance Model.runtime 12.5 56.75 12.5 56.75 = 0%float.
Proof.
  apply (getDistance_same_point Model.runtime 12.5 56.75 5 model_zero_cases);
    reflexivity.
Defined.
